(** * The [let_declaration] grammar rule of antimony (src/grammar.js)

    The repository holds one JavaScript function,

<<
    let_declaration: function(tokens) {
      let expression = [tokens.shift()];
      do {
        token = tokens.shift();
        expression.push(token);
      } while (!["EOF", "\n"].includes(token));
      return { type: "let_declaration", name: "x", value: 5 };
    }
>>

    It is embedded below with explicit state passing.  The state the function
    can touch is the caller's array [tokens], which [shift] mutates in place,
    and the global object, on which the assignment to the undeclared
    identifier [token] creates or overwrites a property (the file is a
    CommonJS module without a strict-mode directive).  The [do ... while]
    loop is a fuel-indexed function: [None] means that the loop is still
    running when the fuel is spent.

    The rule is embedded twice.  The first embedding takes arrays as lists
    of any length; it is exact on every call that returns, for [expression]
    then holds no more elements than the caller's array did.  The second,
    in [Module Engine], adds what decides the calls that do not return: an
    array holds at most [max_length] elements, and [push] on a full array
    throws [RangeError].  The two are related by [engine_returns_iff]. *)

From Stdlib Require Import ZArith List String Ascii Lia.
From stdpp Require Import base option list strings gmap fin_maps.

Local Open Scope string_scope.
Local Open Scope list_scope.

(** ** JavaScript values and the array primitives the rule calls *)

(** The values a token can be.  Numbers are the integer-valued ones, an
    object is known by its reference only. *)
Inductive val : Type :=
  | Undefined
  | Null
  | Bool (b : bool)
  | Num (n : Z)
  | Str (s : string)
  | Obj (ref : nat).

#[global] Instance val_eq_dec : EqDecision val.
Proof. solve_decision. Defined.

(** The one-character string written ["\n"] in the source (line feed). *)
Definition newline : string := String (ascii_of_nat 10) EmptyString.

Module JsArray.

(** [a.shift()]: removes the first element and returns it; on an empty
    array it returns [undefined] and leaves the array empty. *)
Definition shift (a : list val) : val * list val :=
  match a with
  | [] => (Undefined, [])
  | x :: a' => (x, a')
  end.

(** [a.push(v)] on an array that is not full: appends [v] at the end.  What
    it does on a full array is in [Engine.push]. *)
Definition push (a : list val) (v : val) : list val := a ++ [v].

(** [a.includes(v)]: is some element the same value as [v]
    (SameValueZero, which on these values is equality). *)
Definition includes (a : list val) (v : val) : bool :=
  existsb (fun x => bool_decide (x = v)) a.

End JsArray.

(** ** The state and the result *)

(** What a call can observe and change: the caller's array and the
    properties of the global object. *)
Record state : Type := State {
  tokens : list val;
  globals : gmap string val
}.

(** The object literal of the [return] statement. *)
Record node : Type := Node {
  type : string;
  name : string;
  value : Z
}.

#[global] Instance node_eq_dec : EqDecision node.
Proof. solve_decision. Defined.

(** The local variables of a call at the end of the loop, with the state. *)
Record frame : Type := Frame {
  frame_state : state;
  expression : list val
}.

(** ** The rule *)

(** The array literal [["EOF", "\n"]] of the loop condition. *)
Definition terminators : list val := [Str "EOF"; Str newline].

(** Reading the global variable [token] inside the loop condition; the
    assignment of the loop body has always been executed before. *)
Definition read_token (g : gmap string val) : val :=
  default Undefined (g !! "token").

(** The [do { ... } while (...)] loop on arrays of any length: one unit of
    fuel per iteration.  It is the loop of the source for as long as
    [expression] is not full, hence up to every [return]; [Engine.do_while]
    has the exception of the full array. *)
Fixpoint do_while (fuel : nat) (tokens : list val) (g : gmap string val)
    (expression : list val) : option frame :=
  match fuel with
  | O => None
  | S fuel' =>
      let '(t, tokens') := JsArray.shift tokens in
      let g' := <["token" := t]> g in
      let expression' := JsArray.push expression (read_token g') in
      if negb (JsArray.includes terminators (read_token g'))
      then do_while fuel' tokens' g' expression'
      else Some (Frame (State tokens' g') expression')
  end.

(** The function body up to the [return]: the state and the locals. *)
Definition let_declaration_frame (fuel : nat) (σ : state) : option frame :=
  let '(head, tokens') := JsArray.shift (tokens σ) in
  let expression := [head] in
  do_while fuel tokens' (globals σ) expression.

(** [let_declaration(tokens)]: the returned object and the state left. *)
Definition let_declaration (fuel : nat) (σ : state) : option (node * state) :=
  match let_declaration_frame fuel σ with
  | Some f => Some (Node "let_declaration" "x" 5, frame_state f)
  | None => None
  end.

(** The call returns [r]: some number of loop iterations is enough. *)
Definition returns (σ : state) (r : node * state) : Prop :=
  exists fuel, let_declaration fuel σ = Some r.

(** The call returns no node: the loop on arrays of any length yields no
    frame, whatever the fuel. *)
Definition diverges (σ : state) : Prop :=
  forall fuel, let_declaration fuel σ = None.

(** ** Vocabulary of the properties *)

(** A token of a terminator kind: the loop condition is false on it. *)
Definition is_terminator (t : val) : bool := JsArray.includes terminators t.

(** No token of the list is of a terminator kind. *)
Definition no_terminator (l : list val) : Prop :=
  Forall (fun t => is_terminator t = false) l.

(** The node every returning call yields. *)
Definition placeholder : node := Node "let_declaration" "x" 5.

(** A call on [σ] returns after removing exactly the tokens [c] from the
    front of the array, which is left as in [σ']. *)
Definition consumes (σ : state) (c : list val) (σ' : state) : Prop :=
  (exists n, returns σ (n, σ')) /\ tokens σ = c ++ tokens σ'.

(** ** The loop seen one execution of its block at a time *)

(** The block of the [do] statement, executed once on the variables of the
    call: [token = tokens.shift(); expression.push(token);]. *)
Definition loop_body (f : frame) : frame :=
  let '(t, tokens') := JsArray.shift (tokens (frame_state f)) in
  let g' := <["token" := t]> (globals (frame_state f)) in
  Frame (State tokens' g') (JsArray.push (expression f) (read_token g')).

(** The condition of the [while], read after the block. *)
Definition loop_cond (f : frame) : bool :=
  negb (JsArray.includes terminators (read_token (globals (frame_state f)))).

(** The variables of the call after [k] executions of the block. *)
Definition iterations (k : nat) (f : frame) : frame := Nat.iter k loop_body f.

(** [typeof v === "string"]. *)
Definition is_string (v : val) : bool :=
  match v with
  | Str _ => true
  | _ => false
  end.

(** ** The rule under the limit on array lengths *)

(** The largest number of elements of an array by ECMA-262: [2^32 - 1]. *)
Definition ecma_max_length : N := 4294967295.

Module Engine.

(** The exception thrown by [push] on an array that cannot grow
    ("Invalid array length"); it is the only one the rule can meet on an
    array of tokens. *)
Inductive exception : Type :=
  | RangeError.

(** How an operation ends: with a value, or by throwing. *)
Inductive completion (A : Type) : Type :=
  | Return (a : A)
  | Throw (e : exception).

Arguments Return {A} a.
Arguments Throw {A} e.

(** How the loop ends, with the variables of the call at that point. *)
Inductive outcome : Type :=
  | Returns (f : frame)
  | Throws (e : exception) (f : frame).

Section Limit.

(** The number of elements at which an array is full: [ecma_max_length],
    or less where the engine cannot hold as many. *)
Variable max_length : N.

(** [a.push(v)]: appends [v] at the end; throws on a full array. *)
Definition push (a : list val) (v : val) : completion (list val) :=
  if (N.of_nat (length a) <? max_length)%N
  then Return (a ++ [v])
  else Throw RangeError.

(** The [do { ... } while (...)] loop: one unit of fuel per iteration.  When
    [push] throws, the assignment to [token] has been done. *)
Fixpoint do_while (fuel : nat) (tokens : list val) (g : gmap string val)
    (expression : list val) : option outcome :=
  match fuel with
  | O => None
  | S fuel' =>
      let '(t, tokens') := JsArray.shift tokens in
      let g' := <["token" := t]> g in
      match push expression (read_token g') with
      | Throw e => Some (Throws e (Frame (State tokens' g') expression))
      | Return expression' =>
          if negb (JsArray.includes terminators (read_token g'))
          then do_while fuel' tokens' g' expression'
          else Some (Returns (Frame (State tokens' g') expression'))
      end
  end.

(** The function body up to the [return]. *)
Definition let_declaration_frame (fuel : nat) (σ : state) : option outcome :=
  let '(head, tokens') := JsArray.shift (tokens σ) in
  let expression := [head] in
  do_while fuel tokens' (globals σ) expression.

(** [let_declaration(tokens)]: the returned object or the exception thrown,
    and the state left. *)
Definition let_declaration (fuel : nat) (σ : state)
    : option (completion node * state) :=
  match let_declaration_frame fuel σ with
  | Some (Returns f) => Some (Return (Node "let_declaration" "x" 5), frame_state f)
  | Some (Throws e f) => Some (Throw e, frame_state f)
  | None => None
  end.

End Limit.

End Engine.

(** ** The loop, one iteration at a time *)

Section Loop.

Implicit Types (l body rest e : list val) (t head : val).
Implicit Types (g : gmap string val) (fuel : nat).

Lemma read_token_insert g t : read_token (<["token" := t]> g) = t.
Proof. unfold read_token. by rewrite lookup_insert_eq. Qed.

Lemma is_terminator_spec t :
  is_terminator t = true <-> t = Str "EOF" \/ t = Str newline.
Proof.
  unfold is_terminator, JsArray.includes, terminators. simpl.
  rewrite !orb_true_iff, !bool_decide_eq_true. intuition congruence.
Qed.

Lemma undefined_not_terminator : is_terminator Undefined = false.
Proof. reflexivity. Qed.

(** The loop on an array whose first element is not a terminator. *)
Lemma do_while_continue fuel t l g e :
  is_terminator t = false ->
  do_while (S fuel) (t :: l) g e
  = do_while fuel l (<["token" := t]> g) (e ++ [t]).
Proof.
  intros Ht. cbn [do_while JsArray.shift JsArray.push].
  rewrite read_token_insert.
  change (JsArray.includes terminators t) with (is_terminator t).
  by rewrite Ht.
Qed.

(** The loop on an array whose first element is a terminator. *)
Lemma do_while_stop fuel t l g e :
  is_terminator t = true ->
  do_while (S fuel) (t :: l) g e
  = Some (Frame (State l (<["token" := t]> g)) (e ++ [t])).
Proof.
  intros Ht. cbn [do_while JsArray.shift JsArray.push].
  rewrite read_token_insert.
  change (JsArray.includes terminators t) with (is_terminator t).
  by rewrite Ht.
Qed.

(** The loop on the empty array: [shift] yields [undefined], the array
    stays empty and the loop goes on. *)
Lemma do_while_empty fuel g e :
  do_while (S fuel) [] g e
  = do_while fuel [] (<["token" := Undefined]> g) (e ++ [Undefined]).
Proof.
  cbn [do_while JsArray.shift JsArray.push]. by rewrite read_token_insert.
Qed.

(** With a terminator after [body], more iterations than [body] has
    tokens end the loop just after that terminator. *)
Lemma do_while_found body t rest :
  no_terminator body -> is_terminator t = true ->
  forall fuel g e, length body < fuel ->
    do_while fuel (body ++ t :: rest) g e
    = Some (Frame (State rest (<["token" := t]> g)) (e ++ body ++ [t])).
Proof.
  intros Hbody Ht. induction Hbody as [|b body Hb _ IH]; intros fuel g e Hfuel.
  - destruct fuel as [|fuel]; [simpl in Hfuel; lia|].
    simpl app. by rewrite do_while_stop.
  - destruct fuel as [|fuel]; [simpl in Hfuel; lia|].
    simpl app. rewrite do_while_continue by done.
    rewrite IH by (simpl in Hfuel; lia).
    by rewrite insert_insert_eq, <- app_assoc.
Qed.

(** Without a terminator in the array the loop outlives any fuel. *)
Lemma do_while_exhausted l :
  no_terminator l -> forall fuel g e, do_while fuel l g e = None.
Proof.
  intros Hl fuel. revert l Hl.
  induction fuel as [|fuel IH]; intros l Hl g e; [done|].
  destruct Hl as [|t l Ht Hl].
  - rewrite do_while_empty. apply IH. constructor.
  - rewrite do_while_continue by done. by apply IH.
Qed.

(** A loop that ends has removed non-terminators, then one terminator. *)
Lemma do_while_inv fuel :
  forall l g e f, do_while fuel l g e = Some f ->
    exists body t,
      l = body ++ t :: tokens (frame_state f)
      /\ no_terminator body /\ is_terminator t = true
      /\ globals (frame_state f) = <["token" := t]> g
      /\ expression f = e ++ body ++ [t].
Proof.
  induction fuel as [|fuel IH]; intros l g e f Hrun; [done|].
  destruct l as [|t l].
  - rewrite do_while_empty in Hrun.
    apply IH in Hrun as (body & t & Hnil & _). by destruct body.
  - destruct (is_terminator t) eqn:Ht.
    + rewrite do_while_stop in Hrun by done. injection Hrun as <-.
      exists [], t. repeat split; try done. constructor.
    + rewrite do_while_continue in Hrun by done.
      apply IH in Hrun as (body & t' & -> & Hbody & Ht' & Hg & He).
      exists (t :: body), t'. repeat split; try done.
      * by constructor.
      * by rewrite Hg, insert_insert_eq.
      * by rewrite He, <- app_assoc.
Qed.

End Loop.

(** ** The rule as a whole *)

Section Rule.

Implicit Types (l body rest rem c : list val) (t head : val).
Implicit Types (g : gmap string val) (fuel : nat) (σ : state) (n : node).

(** More fuel does not change a result. *)
Lemma do_while_mono fuel fuel' l g e f :
  fuel <= fuel' -> do_while fuel l g e = Some f -> do_while fuel' l g e = Some f.
Proof.
  revert fuel' l g e.
  induction fuel as [|fuel IH]; intros fuel' l g e Hle Hrun; [done|].
  destruct fuel' as [|fuel']; [lia|].
  destruct l as [|t l].
  - rewrite do_while_empty in *. apply (IH fuel'); [lia | done].
  - destruct (is_terminator t) eqn:Ht.
    + rewrite do_while_stop in * by done. done.
    + rewrite do_while_continue in * by done. apply (IH fuel'); [lia | done].
Qed.

Lemma let_declaration_mono fuel fuel' σ r :
  fuel <= fuel' -> let_declaration fuel σ = Some r -> let_declaration fuel' σ = Some r.
Proof.
  unfold let_declaration, let_declaration_frame. intros Hle.
  destruct (JsArray.shift (tokens σ)) as [head l].
  destruct (do_while fuel l (globals σ) [head]) as [f|] eqn:Hrun; [|done].
  by rewrite (do_while_mono _ _ _ _ _ _ Hle Hrun).
Qed.

(** A call has at most one result. *)
Lemma returns_det σ r r' : returns σ r -> returns σ r' -> r = r'.
Proof.
  intros [fuel Hr] [fuel' Hr'].
  apply (let_declaration_mono _ (fuel `max` fuel')) in Hr; [|lia].
  apply (let_declaration_mono _ (fuel `max` fuel')) in Hr'; [|lia].
  congruence.
Qed.

(** On a head, a body without terminator and a terminator, the locals and
    the state at the [return]. *)
Lemma let_declaration_frame_found head body t rest g fuel :
  no_terminator body -> is_terminator t = true -> length body < fuel ->
  let_declaration_frame fuel (State (head :: body ++ t :: rest) g)
  = Some (Frame (State rest (<["token" := t]> g)) (head :: body ++ [t])).
Proof.
  intros Hbody Ht Hfuel. unfold let_declaration_frame. simpl.
  by rewrite (do_while_found body t rest Hbody Ht fuel g [head] Hfuel).
Qed.

Lemma let_declaration_found head body t rest g fuel :
  no_terminator body -> is_terminator t = true -> length body < fuel ->
  let_declaration fuel (State (head :: body ++ t :: rest) g)
  = Some (placeholder, State rest (<["token" := t]> g)).
Proof.
  intros Hbody Ht Hfuel. unfold let_declaration.
  by rewrite let_declaration_frame_found.
Qed.

Lemma returns_found head body t rest g :
  no_terminator body -> is_terminator t = true ->
  returns (State (head :: body ++ t :: rest) g)
          (placeholder, State rest (<["token" := t]> g)).
Proof.
  intros Hbody Ht. exists (S (length body)).
  apply let_declaration_found; [done | done | lia].
Qed.

(** What a result tells about the array before the call. *)
Lemma let_declaration_inv fuel σ n σ' :
  let_declaration fuel σ = Some (n, σ') ->
  n = placeholder
  /\ exists head body t,
       tokens σ = head :: body ++ t :: tokens σ'
       /\ no_terminator body /\ is_terminator t = true
       /\ globals σ' = <["token" := t]> (globals σ).
Proof.
  unfold let_declaration, let_declaration_frame.
  destruct σ as [l g]. simpl.
  destruct l as [|head l]; simpl;
    destruct (do_while fuel _ g _) as [f|] eqn:Hrun; try done;
    intros [= <- <-]; split; try done;
    apply do_while_inv in Hrun as (body & t & Hl & Hbody & Ht & Hg & _).
  - by destruct body.
  - exists head, body, t. by rewrite Hl.
Qed.

(** An array without terminator after its head, or an empty one. *)
Lemma let_declaration_exhausted σ :
  no_terminator (JsArray.shift (tokens σ)).2 -> diverges σ.
Proof.
  intros Hrem fuel. unfold let_declaration, let_declaration_frame.
  destruct (JsArray.shift (tokens σ)) as [head rem].
  by rewrite do_while_exhausted.
Qed.

(** A list with a terminator splits at its first one. *)
Lemma first_terminator l :
  ~ no_terminator l ->
  exists body t rest,
    l = body ++ t :: rest /\ no_terminator body /\ is_terminator t = true.
Proof.
  induction l as [|x l IH]; intros Hl.
  - destruct Hl. constructor.
  - destruct (is_terminator x) eqn:Hx.
    + exists [], x, l. repeat split; [constructor | done].
    + destruct IH as (body & t & rest & -> & Hbody & Ht).
      { intros Hl'. apply Hl. by constructor. }
      exists (x :: body), t, rest. repeat split; [by constructor | done].
Qed.

(** A call returns exactly when a terminator follows the head. *)
Lemma returns_iff_terminator head rem g :
  (exists r, returns (State (head :: rem) g) r) <-> ~ no_terminator rem.
Proof.
  split.
  - intros [r [fuel Hrun]] Hrem.
    by rewrite let_declaration_exhausted in Hrun.
  - intros Hrem.
    apply first_terminator in Hrem as (body & t & rest & -> & Hbody & Ht).
    eexists. by apply returns_found.
Qed.

(** Every property of the global object but [token] is left as it was. *)
Lemma globals_frame σ n σ' k :
  returns σ (n, σ') -> k <> "token" -> globals σ' !! k = globals σ !! k.
Proof.
  intros [fuel Hrun] Hk.
  apply let_declaration_inv in Hrun as (_ & head & body & t & _ & _ & _ & ->).
  by rewrite lookup_insert_ne.
Qed.

End Rule.

Section Consumption.

Implicit Types (l body rest rem c : list val) (t head : val).
Implicit Types (g : gmap string val) (fuel : nat) (σ : state) (n : node).

Lemma consumes_found head body t rest g :
  no_terminator body -> is_terminator t = true ->
  consumes (State (head :: body ++ t :: rest) g) (head :: body ++ [t])
           (State rest (<["token" := t]> g)).
Proof.
  intros Hbody Ht. split.
  - exists placeholder. by apply returns_found.
  - simpl. by rewrite <- app_assoc.
Qed.

(** The removed tokens are a head, non-terminators and one terminator. *)
Lemma consumes_inv σ c σ' :
  consumes σ c σ' ->
  exists head body t,
    c = head :: body ++ [t] /\ no_terminator body /\ is_terminator t = true
    /\ globals σ' = <["token" := t]> (globals σ).
Proof.
  intros [[n [fuel Hrun]] Hc].
  apply let_declaration_inv in Hrun as (_ & head & body & t & Hl & Hbody & Ht & Hg).
  exists head, body, t. repeat split; try done.
  rewrite Hl in Hc. apply (app_inv_tail (tokens σ')).
  rewrite <- Hc. simpl. by rewrite <- app_assoc.
Qed.

(** The local array [expression] holds the removed tokens at the [return]. *)
Lemma expression_is_consumed fuel σ f :
  let_declaration_frame fuel σ = Some f ->
  consumes σ (expression f) (frame_state f).
Proof.
  intros Hrun. split.
  - exists placeholder, fuel. unfold let_declaration. by rewrite Hrun.
  - unfold let_declaration_frame in Hrun. destruct σ as [l g]. simpl in *.
    destruct l as [|head l]; simpl in Hrun;
      apply do_while_inv in Hrun as (body & t & Hl & _ & _ & _ & ->).
    + by destruct body.
    + rewrite Hl. simpl. by rewrite <- !app_assoc.
Qed.

End Consumption.

(** ** The loop under the limit on array lengths *)

Section EngineLoop.

Variable max_length : N.

Implicit Types (l body rest rem e : list val) (t head : val).
Implicit Types (g : gmap string val) (fuel k : nat) (σ : state) (f : frame).

Lemma engine_push_room e t :
  length e < N.to_nat max_length -> Engine.push max_length e t = Engine.Return (e ++ [t]).
Proof.
  intros He. unfold Engine.push.
  destruct (N.ltb_spec (N.of_nat (length e)) max_length); [done | lia].
Qed.

Lemma engine_push_full e t :
  N.to_nat max_length <= length e ->
  Engine.push max_length e t = Engine.Throw Engine.RangeError.
Proof.
  intros He. unfold Engine.push.
  destruct (N.ltb_spec (N.of_nat (length e)) max_length); [lia | done].
Qed.

(** One iteration on a full [expression]: the token is removed and assigned
    to [token], then [push] throws. *)
Lemma engine_do_while_full fuel l g e :
  N.to_nat max_length <= length e ->
  Engine.do_while max_length (S fuel) l g e
  = Some (Engine.Throws Engine.RangeError
            (Frame (State (drop 1 l) (<["token" := default Undefined (l !! 0)]> g)) e)).
Proof.
  intros He. cbn [Engine.do_while].
  destruct l as [|t l]; cbn [JsArray.shift];
    rewrite read_token_insert, engine_push_full by done; done.
Qed.

Lemma engine_do_while_continue fuel t l g e :
  length e < N.to_nat max_length -> is_terminator t = false ->
  Engine.do_while max_length (S fuel) (t :: l) g e
  = Engine.do_while max_length fuel l (<["token" := t]> g) (e ++ [t]).
Proof.
  intros He Ht. cbn [Engine.do_while JsArray.shift].
  rewrite read_token_insert, engine_push_room by done.
  change (JsArray.includes terminators t) with (is_terminator t).
  by rewrite Ht.
Qed.


Lemma engine_do_while_empty fuel g e :
  length e < N.to_nat max_length ->
  Engine.do_while max_length (S fuel) [] g e
  = Engine.do_while max_length fuel [] (<["token" := Undefined]> g) (e ++ [Undefined]).
Proof.
  intros He. cbn [Engine.do_while JsArray.shift].
  by rewrite read_token_insert, engine_push_room by done.
Qed.




(** Without a terminator in the array, the loop runs for as long as
    [expression] can grow: with room for [k] more elements it is still
    running after [k] iterations. *)
Lemma engine_do_while_running l :
  no_terminator l ->
  forall k fuel g e,
    length e + k = N.to_nat max_length -> fuel <= k ->
    Engine.do_while max_length fuel l g e = None.
Proof.
  intros Hl k. revert l Hl.
  induction k as [|k IH]; intros l Hl fuel g e Hroom Hfuel.
  - by replace fuel with 0 by lia.
  - destruct fuel as [|fuel]; [done|].
    destruct Hl as [|t l Ht Hl].
    + rewrite engine_do_while_empty by lia.
      apply IH; [constructor | rewrite length_app; simpl; lia | lia].
    + rewrite engine_do_while_continue by (done || lia).
      apply IH; [done | rewrite length_app; simpl; lia | lia].
Qed.

(** The iteration after these throws: [expression] is full, of the tokens
    removed and one [undefined] for each iteration on the emptied array. *)
Lemma engine_do_while_throws l :
  no_terminator l ->
  forall k fuel g e,
    length e + k = N.to_nat max_length -> k < fuel ->
    Engine.do_while max_length fuel l g e
    = Some (Engine.Throws Engine.RangeError
              (Frame (State (drop (S k) l) (<["token" := default Undefined (l !! k)]> g))
                     (e ++ take k l ++ replicate (k - length l) Undefined))).
Proof.
  intros Hl k. revert l Hl.
  induction k as [|k IH]; intros l Hl fuel g e Hroom Hfuel;
    (destruct fuel as [|fuel]; [lia|]).
  - rewrite engine_do_while_full by lia. simpl. by rewrite app_nil_r.
  - destruct Hl as [|t l Ht Hl].
    + rewrite engine_do_while_empty by lia.
      assert (Hnil : no_terminator []) by constructor.
      rewrite (IH [] Hnil) by (rewrite ?length_app; simpl; lia).
      rewrite insert_insert_eq, !drop_nil, !take_nil, !lookup_nil, !Nat.sub_0_r.
      simpl. by rewrite <- app_assoc.
    + rewrite engine_do_while_continue by (done || lia).
      rewrite (IH l Hl) by (rewrite ?length_app; simpl; lia).
      rewrite insert_insert_eq. simpl. by rewrite <- app_assoc.
Qed.


(** The call on a stream without terminator after its head, under a limit
    of at least one element. *)
Lemma engine_let_declaration_exhausted head rem g :
  no_terminator rem -> 1 <= N.to_nat max_length ->
  (forall fuel, fuel < N.to_nat max_length ->
     Engine.let_declaration_frame max_length fuel (State (head :: rem) g) = None)
  /\ Engine.let_declaration_frame max_length (N.to_nat max_length) (State (head :: rem) g)
     = Some (Engine.Throws Engine.RangeError
               (Frame (State (drop (N.to_nat max_length) rem)
                             (<["token" := default Undefined
                                             (rem !! (N.to_nat max_length - 1))]> g))
                      (head :: take (N.to_nat max_length - 1) rem
                         ++ replicate (N.to_nat max_length - 1 - length rem) Undefined))).
Proof.
  intros Hrem Hlim. unfold Engine.let_declaration_frame. simpl. split.
  - intros fuel Hfuel.
    apply (engine_do_while_running rem Hrem (N.to_nat max_length - 1));
      simpl; lia.
  - rewrite (engine_do_while_throws rem Hrem (N.to_nat max_length - 1))
      by (simpl; lia).
    by replace (S (N.to_nat max_length - 1)) with (N.to_nat max_length) by lia.
Qed.

End EngineLoop.

(** The two embeddings on [["let"]] under a limit of five elements: four
    iterations leave the loop running, the fifth throws. *)
Example engine_limit_five :
  Engine.let_declaration 5 4 (State [Str "let"] ∅) = None
  /\ Engine.let_declaration_frame 5 5 (State [Str "let"] ∅)
     = Some (Engine.Throws Engine.RangeError
               (Frame (State [] (<["token" := Undefined]> ∅))
                      [Str "let"; Undefined; Undefined; Undefined; Undefined]))
  /\ let_declaration 5 (State [Str "let"] ∅) = None.
Proof. vm_compute. done. Qed.

(** ** The properties of the specification *)

(** C1. On a stream [head, t1, ..., tn, terminator, ...rest] whose [t1..tn]
    are not of a terminator kind, the call returns after removing exactly
    the [n + 2] tokens from [head] through the terminator, and [rest] is what
    the stream then holds. *)
Theorem let_declaration_consumes_through_terminator
    (head : val) (body : list val) (t : val) (rest : list val)
    (g : gmap string val) :
  no_terminator body -> is_terminator t = true ->
  exists σ',
    consumes (State (head :: body ++ t :: rest) g) (head :: body ++ [t]) σ'
    /\ length (head :: body ++ [t]) = length body + 2
    /\ tokens σ' = rest.
Proof.
  intros Hbody Ht. eexists. split; [by apply consumes_found|].
  split; [|done]. simpl. rewrite length_app. simpl. lia.
Qed.

Lemma let_declaration_consumes_through_terminator_witness :
  no_terminator [Str "IDENT:x"; Num 5] /\ is_terminator (Str newline) = true
  /\ exists σ',
       consumes (State (Str "let" :: [Str "IDENT:x"; Num 5] ++ Str newline :: [Str "let"]) ∅)
                (Str "let" :: [Str "IDENT:x"; Num 5] ++ [Str newline]) σ'
       /\ length (Str "let" :: [Str "IDENT:x"; Num 5] ++ [Str newline])
          = length [Str "IDENT:x"; Num 5] + 2
       /\ tokens σ' = [Str "let"].
Proof.
  assert (Hbody : no_terminator [Str "IDENT:x"; Num 5])
    by (repeat constructor).
  assert (Ht : is_terminator (Str newline) = true) by reflexivity.
  split; [exact Hbody|]. split; [exact Ht|].
  exact (let_declaration_consumes_through_terminator
           (Str "let") [Str "IDENT:x"; Num 5] (Str newline) [Str "let"] ∅ Hbody Ht).
Defined.

(** C2 on the truncated declaration [["let", "IDENT:x", "=", "5"]], under
    any limit of four elements or more.  The loop has no check for an
    emptied stream: once the three tokens after the head are removed it goes
    on, [shift] yielding [undefined], for as long as [expression] can grow,
    and the call ends by the [RangeError] of [push] on the full array, with
    the stream empty and [undefined] in the global [token].  No failure is
    raised when the stream runs out. *)
Theorem let_declaration_range_error_on_truncated_stream (max_length : N) :
  (4 <= max_length)%N ->
  (forall fuel, fuel < N.to_nat max_length ->
     Engine.let_declaration max_length fuel
       (State [Str "let"; Str "IDENT:x"; Str "="; Str "5"] ∅) = None)
  /\ Engine.let_declaration max_length (N.to_nat max_length)
       (State [Str "let"; Str "IDENT:x"; Str "="; Str "5"] ∅)
     = Some (Engine.Throw Engine.RangeError, State [] (<["token" := Undefined]> ∅))
  /\ exists f,
       Engine.let_declaration_frame max_length (N.to_nat max_length)
         (State [Str "let"; Str "IDENT:x"; Str "="; Str "5"] ∅)
       = Some (Engine.Throws Engine.RangeError f)
       /\ length (expression f) = N.to_nat max_length.
Proof.
  intros Hlim.
  assert (Hrem : no_terminator [Str "IDENT:x"; Str "="; Str "5"])
    by (repeat constructor).
  destruct (engine_let_declaration_exhausted max_length (Str "let") _ ∅ Hrem)
    as [Hrun Hthrow]; [lia|].
  rewrite drop_ge, lookup_ge_None_2 in Hthrow by (simpl; lia).
  split; [|split].
  - intros fuel Hfuel. unfold Engine.let_declaration. by rewrite Hrun.
  - unfold Engine.let_declaration. by rewrite Hthrow.
  - eexists. split; [exact Hthrow|].
    cbn [expression length]. rewrite length_app, length_take, length_replicate.
    simpl. lia.
Qed.

Lemma let_declaration_range_error_on_truncated_stream_witness :
  (4 <= ecma_max_length)%N
  /\ (forall fuel, fuel < N.to_nat ecma_max_length ->
        Engine.let_declaration ecma_max_length fuel
          (State [Str "let"; Str "IDENT:x"; Str "="; Str "5"] ∅) = None)
  /\ Engine.let_declaration ecma_max_length (N.to_nat ecma_max_length)
       (State [Str "let"; Str "IDENT:x"; Str "="; Str "5"] ∅)
     = Some (Engine.Throw Engine.RangeError, State [] (<["token" := Undefined]> ∅))
  /\ exists f,
       Engine.let_declaration_frame ecma_max_length (N.to_nat ecma_max_length)
         (State [Str "let"; Str "IDENT:x"; Str "="; Str "5"] ∅)
       = Some (Engine.Throws Engine.RangeError f)
       /\ length (expression f) = N.to_nat ecma_max_length.
Proof.
  assert (Hlim : (4 <= ecma_max_length)%N) by (unfold ecma_max_length; lia).
  split; [exact Hlim|].
  exact (let_declaration_range_error_on_truncated_stream ecma_max_length Hlim).
Defined.

(** C3. Whatever the stream, a call that returns yields the record
    [{type: "let_declaration", name: "x", value: 5}]. *)
Theorem let_declaration_returns_fixed_node (σ : state) (n : node) (σ' : state) :
  returns σ (n, σ') ->
  n = Node "let_declaration" "x" 5 /\ type n = "let_declaration".
Proof.
  intros [fuel Hrun]. apply let_declaration_inv in Hrun as [-> _]. done.
Qed.

Lemma let_declaration_returns_fixed_node_witness :
  returns (State [Obj 7; Num 3; Str "EOF"] ∅)
          (placeholder, State [] (<["token" := Str "EOF"]> ∅))
  /\ placeholder = Node "let_declaration" "x" 5
  /\ type placeholder = "let_declaration".
Proof.
  assert (Hrun : returns (State [Obj 7; Num 3; Str "EOF"] ∅)
                         (placeholder, State [] (<["token" := Str "EOF"]> ∅)))
    by (exists 2; vm_compute; reflexivity).
  split; [exact Hrun|].
  exact (let_declaration_returns_fixed_node _ _ _ Hrun).
Defined.

(** C4 on the stream [["let", "EOF"]] and a global object without any
    property: the call returns, and the global object has gained the
    property [token], which holds ["EOF"].  The assignment to the undeclared
    identifier is a write to global state. *)
Theorem let_declaration_writes_global_token :
  globals (State [Str "let"; Str "EOF"] ∅) !! "token" = None
  /\ exists σ',
       returns (State [Str "let"; Str "EOF"] ∅) (placeholder, σ')
       /\ tokens σ' = []
       /\ globals σ' !! "token" = Some (Str "EOF").
Proof.
  split; [done|].
  exists (State [] (<["token" := Str "EOF"]> ∅)). split; [|done].
  exists 1. vm_compute. reflexivity.
Qed.

(** C5. A call that returns has removed at least two tokens from the
    stream; on [[head, terminator]] it removes exactly these two. *)
Theorem let_declaration_consumes_at_least_two :
  (forall (σ : state) (c : list val) (σ' : state),
     consumes σ c σ' -> 2 <= length c)
  /\ (forall (head t : val) (g : gmap string val),
        is_terminator t = true ->
        exists σ',
          consumes (State [head; t] g) [head; t] σ'
          /\ length [head; t] = 2 /\ tokens σ' = []).
Proof.
  split.
  - intros σ c σ' Hc.
    apply consumes_inv in Hc as (head & body & t & -> & _).
    simpl. rewrite length_app. simpl. lia.
  - intros head t g Ht. eexists.
    split; [apply (consumes_found head [] t [] g); [constructor | done] | done].
Qed.

Lemma let_declaration_consumes_at_least_two_witness :
  consumes (State [Str "let"; Str "EOF"; Str "next1"] ∅) [Str "let"; Str "EOF"]
           (State [Str "next1"] (<["token" := Str "EOF"]> ∅))
  /\ 2 <= length [Str "let"; Str "EOF"]
  /\ is_terminator (Str newline) = true
  /\ exists σ',
       consumes (State [Str "let"; Str newline] ∅) [Str "let"; Str newline] σ'
       /\ length [Str "let"; Str newline] = 2 /\ tokens σ' = [].
Proof.
  assert (Hc : consumes (State [Str "let"; Str "EOF"; Str "next1"] ∅)
                        [Str "let"; Str "EOF"]
                        (State [Str "next1"] (<["token" := Str "EOF"]> ∅))).
  { split; [|reflexivity]. exists placeholder, 1. vm_compute. reflexivity. }
  assert (Ht : is_terminator (Str newline) = true) by reflexivity.
  split; [exact Hc|].
  split; [exact (proj1 let_declaration_consumes_at_least_two _ _ _ Hc)|].
  split; [exact Ht|].
  exact (proj2 let_declaration_consumes_at_least_two (Str "let") (Str newline) ∅ Ht).
Defined.

(** C6. On two well-formed declarations in a row followed by [rest], a
    first call removes exactly the tokens of the first declaration, a second
    call on the stream so left removes exactly those of the second, and
    [rest] remains. *)
Theorem let_declaration_twice_consumes_each_once
    (h1 : val) (b1 : list val) (t1 : val)
    (h2 : val) (b2 : list val) (t2 : val)
    (rest : list val) (g : gmap string val) :
  no_terminator b1 -> is_terminator t1 = true ->
  no_terminator b2 -> is_terminator t2 = true ->
  exists σ1 σ2,
    consumes (State ((h1 :: b1 ++ [t1]) ++ (h2 :: b2 ++ [t2]) ++ rest) g)
             (h1 :: b1 ++ [t1]) σ1
    /\ tokens σ1 = (h2 :: b2 ++ [t2]) ++ rest
    /\ consumes σ1 (h2 :: b2 ++ [t2]) σ2
    /\ tokens σ2 = rest.
Proof.
  intros Hb1 Ht1 Hb2 Ht2.
  exists (State ((h2 :: b2 ++ [t2]) ++ rest) (<["token" := t1]> g)),
         (State rest (<["token" := t2]> (<["token" := t1]> g))).
  repeat split; try done.
  - destruct (returns_found h1 b1 t1 ((h2 :: b2 ++ [t2]) ++ rest) g Hb1 Ht1)
      as [fuel Hrun].
    exists placeholder, fuel. rewrite <- Hrun. f_equal. f_equal.
    simpl. by rewrite <- app_assoc.
  - destruct (returns_found h2 b2 t2 rest (<["token" := t1]> g) Hb2 Ht2)
      as [fuel Hrun].
    exists placeholder, fuel. rewrite <- Hrun. f_equal. f_equal.
    simpl. by rewrite <- app_assoc.
Qed.

Lemma let_declaration_twice_consumes_each_once_witness :
  no_terminator [Str "IDENT:x"; Str "="; Str "5"] /\ is_terminator (Str newline) = true
  /\ no_terminator [Str "IDENT:y"] /\ is_terminator (Str "EOF") = true
  /\ exists σ1 σ2,
       consumes (State ((Str "let" :: [Str "IDENT:x"; Str "="; Str "5"] ++ [Str newline])
                        ++ (Str "let" :: [Str "IDENT:y"] ++ [Str "EOF"]) ++ [Num 1]) ∅)
                (Str "let" :: [Str "IDENT:x"; Str "="; Str "5"] ++ [Str newline]) σ1
       /\ tokens σ1 = (Str "let" :: [Str "IDENT:y"] ++ [Str "EOF"]) ++ [Num 1]
       /\ consumes σ1 (Str "let" :: [Str "IDENT:y"] ++ [Str "EOF"]) σ2
       /\ tokens σ2 = [Num 1].
Proof.
  assert (Hb1 : no_terminator [Str "IDENT:x"; Str "="; Str "5"]) by (repeat constructor).
  assert (Ht1 : is_terminator (Str newline) = true) by reflexivity.
  assert (Hb2 : no_terminator [Str "IDENT:y"]) by (repeat constructor).
  assert (Ht2 : is_terminator (Str "EOF") = true) by reflexivity.
  split; [exact Hb1|]. split; [exact Ht1|]. split; [exact Hb2|]. split; [exact Ht2|].
  exact (let_declaration_twice_consumes_each_once
           (Str "let") [Str "IDENT:x"; Str "="; Str "5"] (Str newline)
           (Str "let") [Str "IDENT:y"] (Str "EOF") [Num 1] ∅ Hb1 Ht1 Hb2 Ht2).
Defined.

(** C7. On [["let", "IDENT:x", "=", "5", "EOF"]] the call removes the five
    tokens, returns [{type: "let_declaration", name: "x", value: 5}] and
    leaves the stream empty; on [["let", "\n", "next1"]] it removes the first
    two tokens and leaves [["next1"]]. *)
Theorem let_declaration_scenarios (g : gmap string val) :
  (exists σ',
     consumes (State [Str "let"; Str "IDENT:x"; Str "="; Str "5"; Str "EOF"] g)
              [Str "let"; Str "IDENT:x"; Str "="; Str "5"; Str "EOF"] σ'
     /\ returns (State [Str "let"; Str "IDENT:x"; Str "="; Str "5"; Str "EOF"] g)
                (Node "let_declaration" "x" 5, σ')
     /\ tokens σ' = [])
  /\ (exists σ',
        consumes (State [Str "let"; Str newline; Str "next1"] g)
                 [Str "let"; Str newline] σ'
        /\ tokens σ' = [Str "next1"]).
Proof.
  split.
  - exists (State [] (<["token" := Str "EOF"]> g)). repeat split; try done.
    + exists placeholder.
      apply (returns_found (Str "let") [Str "IDENT:x"; Str "="; Str "5"] (Str "EOF") [] g);
        [repeat constructor | done].
    + apply (returns_found (Str "let") [Str "IDENT:x"; Str "="; Str "5"] (Str "EOF") [] g);
        [repeat constructor | done].
  - exists (State [Str "next1"] (<["token" := Str newline]> g)). split; [|done].
    apply (consumes_found (Str "let") [] (Str newline) [Str "next1"] g);
      [constructor | done].
Qed.



(** C9. After a call that returns, the global variable [token] holds the
    last token removed from the stream, which is a terminator, whatever it
    held or did not hold before. *)
Theorem let_declaration_leaves_terminator_in_token
    (σ : state) (n : node) (σ' : state) :
  returns σ (n, σ') ->
  exists (c : list val) (t : val),
    tokens σ = (c ++ [t]) ++ tokens σ'
    /\ is_terminator t = true
    /\ globals σ' !! "token" = Some t
    /\ globals σ' = <["token" := t]> (globals σ).
Proof.
  intros [fuel Hrun].
  apply let_declaration_inv in Hrun as (_ & head & body & t & Hl & _ & Ht & Hg).
  exists (head :: body), t. repeat split; try done.
  - rewrite Hl. simpl. by rewrite <- app_assoc.
  - by rewrite Hg, lookup_insert_eq.
Qed.

Lemma let_declaration_leaves_terminator_in_token_witness :
  returns (State [Str "let"; Str "IDENT:x"; Str newline; Str "next1"]
                 (<["token" := Num 0]> ∅))
          (placeholder, State [Str "next1"] (<["token" := Str newline]> ∅))
  /\ exists (c : list val) (t : val),
       [Str "let"; Str "IDENT:x"; Str newline; Str "next1"] = (c ++ [t]) ++ [Str "next1"]
       /\ is_terminator t = true
       /\ (<["token" := Str newline]> ∅ : gmap string val) !! "token" = Some t
       /\ (<["token" := Str newline]> ∅ : gmap string val)
          = <["token" := t]> (<["token" := Num 0]> ∅).
Proof.
  assert (Hrun : returns (State [Str "let"; Str "IDENT:x"; Str newline; Str "next1"]
                                (<["token" := Num 0]> ∅))
                         (placeholder, State [Str "next1"] (<["token" := Str newline]> ∅)))
    by (exists 2; vm_compute; reflexivity).
  split; [exact Hrun|].
  exact (let_declaration_leaves_terminator_in_token _ _ _ Hrun).
Defined.

(** C10. The head is removed without being compared with the terminator
    kinds: on a stream whose first token is a terminator the call goes on to
    the next terminator and returns after removing it; cut before that second
    terminator, the same stream never lets the call return. *)
Theorem let_declaration_head_not_tested
    (head : val) (body : list val) (t : val) (rest : list val)
    (g : gmap string val) :
  is_terminator head = true -> no_terminator body -> is_terminator t = true ->
  (exists σ',
     consumes (State (head :: body ++ t :: rest) g) (head :: body ++ [t]) σ'
     /\ tokens σ' = rest)
  /\ diverges (State (head :: body) g).
Proof.
  intros _ Hbody Ht. split.
  - eexists. split; [by apply consumes_found | done].
  - by apply let_declaration_exhausted.
Qed.

Lemma let_declaration_head_not_tested_witness :
  is_terminator (Str newline) = true /\ no_terminator []
  /\ is_terminator (Str "EOF") = true
  /\ (exists σ',
        consumes (State (Str newline :: [] ++ Str "EOF" :: []) ∅)
                 (Str newline :: [] ++ [Str "EOF"]) σ'
        /\ tokens σ' = [])
  /\ diverges (State (Str newline :: []) ∅).
Proof.
  assert (Hh : is_terminator (Str newline) = true) by reflexivity.
  assert (Hb : no_terminator []) by constructor.
  assert (Ht : is_terminator (Str "EOF") = true) by reflexivity.
  split; [exact Hh|]. split; [exact Hb|]. split; [exact Ht|].
  exact (let_declaration_head_not_tested (Str newline) [] (Str "EOF") [] ∅ Hh Hb Ht).
Defined.


(** ** Further properties of the rule *)

Section Iterations.

Implicit Types (l body rest rem e : list val) (t head : val).
Implicit Types (g : gmap string val) (fuel k : nat) (f : frame).

(** [do_while] is the block, then the condition, then the loop again. *)
Lemma do_while_unfold fuel l g e :
  do_while (S fuel) l g e
  = let f := loop_body (Frame (State l g) e) in
    if loop_cond f
    then do_while fuel (tokens (frame_state f)) (globals (frame_state f)) (expression f)
    else Some f.
Proof. by destruct l. Qed.

(** The block on the emptied array and on an array with a first token. *)
Lemma loop_body_nil g e :
  loop_body (Frame (State [] g) e)
  = Frame (State [] (<["token" := Undefined]> g)) (e ++ [Undefined]).
Proof. unfold loop_body. simpl. by rewrite read_token_insert. Qed.

Lemma loop_body_cons t l g e :
  loop_body (Frame (State (t :: l) g) e)
  = Frame (State l (<["token" := t]> g)) (e ++ [t]).
Proof. unfold loop_body. simpl. by rewrite read_token_insert. Qed.

Lemma iterations_succ_r k f : iterations (S k) f = iterations k (loop_body f).
Proof. apply Nat.iter_succ_r. Qed.

(** A loop that ends has executed its block some [k + 1] times, within the
    fuel, the condition holding after each execution but the last. *)
Lemma do_while_iterations fuel :
  forall l g e f, do_while fuel l g e = Some f ->
    exists k, k < fuel
      /\ f = iterations (S k) (Frame (State l g) e)
      /\ loop_cond f = false
      /\ forall j, j < k -> loop_cond (iterations (S j) (Frame (State l g) e)) = true.
Proof.
  induction fuel as [|fuel IH]; intros l g e f Hrun; [done|].
  rewrite do_while_unfold in Hrun. cbv zeta in Hrun.
  destruct (loop_cond (loop_body (Frame (State l g) e))) eqn:Hcond.
  - apply IH in Hrun as (k & Hk & -> & Hend & Hbefore).
    exists (S k). split; [lia|].
    assert (Heta : forall f' : frame,
               Frame (State (tokens (frame_state f')) (globals (frame_state f')))
                     (expression f') = f') by (by intros [[? ?] ?]).
    rewrite Heta in *. repeat split.
    + by rewrite (iterations_succ_r (S k)).
    + done.
    + intros [|j] Hj; [done|].
      rewrite (iterations_succ_r (S j)). apply Hbefore. lia.
  - injection Hrun as <-. exists 0. repeat split; [lia | done | lia].
Qed.

(** A loop still running when the fuel is spent has found its condition
    true after each execution of the block. *)
Lemma do_while_running fuel :
  forall l g e, do_while fuel l g e = None ->
    forall k, k < fuel -> loop_cond (iterations (S k) (Frame (State l g) e)) = true.
Proof.
  induction fuel as [|fuel IH]; intros l g e Hrun k Hk; [lia|].
  rewrite do_while_unfold in Hrun. cbv zeta in Hrun.
  destruct (loop_cond (loop_body (Frame (State l g) e))) eqn:Hcond; [|done].
  destruct k as [|k]; [done|].
  rewrite (iterations_succ_r (S k)).
  destruct (loop_body (Frame (State l g) e)) as [[l' g'] e'].
  apply (IH l' g' e' Hrun). lia.
Qed.

(** The array and the local [expression] after [k] executions of the block:
    the first [k] tokens have moved, in order, from the one to the other,
    and each execution on the emptied array has pushed [undefined]. *)
Lemma iterations_spec k :
  forall l g e,
    tokens (frame_state (iterations k (Frame (State l g) e))) = drop k l
    /\ expression (iterations k (Frame (State l g) e))
       = e ++ take k l ++ replicate (k - length l) Undefined.
Proof.
  induction k as [|k IH]; intros l g e.
  - simpl. by rewrite ?drop_0, ?app_nil_r.
  - rewrite iterations_succ_r. destruct l as [|x l].
    + rewrite loop_body_nil.
      destruct (IH [] (<["token" := Undefined]> g) (e ++ [Undefined])) as [-> ->].
      rewrite drop_nil, take_nil, Nat.sub_0_r. simpl. by rewrite <- app_assoc.
    + rewrite loop_body_cons.
      destruct (IH l (<["token" := x]> g) (e ++ [x])) as [-> ->].
      simpl. by rewrite <- app_assoc.
Qed.

(** The global [token] after [k + 1] executions of the block: the token at
    index [k] of the array, [undefined] beyond its end. *)
Lemma iterations_globals k :
  forall l g e,
    globals (frame_state (iterations (S k) (Frame (State l g) e)))
    = <["token" := default Undefined (l !! k)]> g.
Proof.
  induction k as [|k IH]; intros l g e.
  - by destruct l.
  - rewrite iterations_succ_r. destruct l as [|x l].
    + rewrite loop_body_nil, IH. by rewrite insert_insert_eq.
    + rewrite loop_body_cons, IH. by rewrite insert_insert_eq.
Qed.

(** With fewer iterations than [body] has tokens, none of them a
    terminator, the loop is still running. *)
Lemma do_while_short body :
  no_terminator body ->
  forall fuel l g e, fuel <= length body -> do_while fuel (body ++ l) g e = None.
Proof.
  induction 1 as [|b body Hb _ IH]; intros fuel l g e Hfuel.
  - simpl in Hfuel. by replace fuel with 0 by lia.
  - destruct fuel as [|fuel]; [done|].
    simpl app. rewrite do_while_continue by done.
    apply IH. simpl in Hfuel. lia.
Qed.

(** The array left and the tokens accumulated do not depend on the global
    object the loop starts from. *)
Lemma do_while_ignores_globals fuel :
  forall l g g' e,
    (fun f => (tokens (frame_state f), expression f)) <$> do_while fuel l g e
    = (fun f => (tokens (frame_state f), expression f)) <$> do_while fuel l g' e.
Proof.
  induction fuel as [|fuel IH]; intros l g g' e; [done|].
  destruct l as [|t l].
  - rewrite !do_while_empty. apply IH.
  - destruct (is_terminator t) eqn:Ht.
    + by rewrite !do_while_stop.
    + rewrite !do_while_continue by done. apply IH.
Qed.

Lemma not_string_not_terminator t : is_string t = false -> is_terminator t = false.
Proof. by destruct t. Qed.

End Iterations.

(** X1. A call that returns has removed the head, then tokens none of which
    is of a terminator kind, then one terminator, and nothing else: it never
    removes a token beyond the first terminator that follows the head, and
    what the stream holds afterwards is the rest of what it held. *)
Theorem let_declaration_stops_at_first_terminator
    (σ : state) (n : node) (σ' : state) :
  returns σ (n, σ') ->
  exists (head : val) (body : list val) (t : val),
    tokens σ = head :: body ++ t :: tokens σ'
    /\ no_terminator body /\ is_terminator t = true.
Proof.
  intros [fuel Hrun].
  apply let_declaration_inv in Hrun as (_ & head & body & t & Hl & Hbody & Ht & _).
  by exists head, body, t.
Qed.

Lemma let_declaration_stops_at_first_terminator_witness :
  returns (State [Str "let"; Str "a"; Str "EOF"; Str "b"; Str "EOF"] ∅)
          (placeholder, State [Str "b"; Str "EOF"] (<["token" := Str "EOF"]> ∅))
  /\ exists (head : val) (body : list val) (t : val),
       [Str "let"; Str "a"; Str "EOF"; Str "b"; Str "EOF"]
       = head :: body ++ t :: [Str "b"; Str "EOF"]
       /\ no_terminator body /\ is_terminator t = true.
Proof.
  assert (Hrun : returns (State [Str "let"; Str "a"; Str "EOF"; Str "b"; Str "EOF"] ∅)
                         (placeholder,
                          State [Str "b"; Str "EOF"] (<["token" := Str "EOF"]> ∅)))
    by (exists 2; vm_compute; reflexivity).
  split; [exact Hrun|].
  exact (let_declaration_stops_at_first_terminator _ _ _ Hrun).
Defined.

(** X2. Whether and with what a call returns is settled by as many loop
    iterations as the stream has tokens after its head: the call returns a
    result exactly when it does so within [length tokens - 1] iterations. *)
Theorem let_declaration_returns_within_length (σ : state) (r : node * state) :
  returns σ r <-> let_declaration (length (tokens σ) - 1) σ = Some r.
Proof.
  split; [|intros Hrun; by eexists].
  intros [fuel Hrun]. destruct r as [n σ'].
  destruct (let_declaration_inv _ _ _ _ Hrun)
    as (-> & head & body & t & Hl & Hbody & Ht & Hg).
  destruct σ as [l g], σ' as [l' g']. simpl in *. subst l g'.
  apply let_declaration_found; [done | done |].
  simpl. rewrite length_app. simpl. lia.
Qed.

(** X3. On a head, [n] tokens none of which is a terminator and a
    terminator, the block of the loop is executed exactly [n + 1] times: the
    call is still running after [fuel] iterations exactly when
    [fuel <= n]. *)
Theorem let_declaration_iteration_count
    (head : val) (body : list val) (t : val) (rest : list val)
    (g : gmap string val) :
  no_terminator body -> is_terminator t = true ->
  forall fuel,
    let_declaration fuel (State (head :: body ++ t :: rest) g) = None
    <-> fuel <= length body.
Proof.
  intros Hbody Ht fuel. split.
  - intros Hrun. destruct (decide (fuel <= length body)) as [|Hlt]; [done|].
    rewrite let_declaration_found in Hrun by (done || lia). done.
  - intros Hfuel. unfold let_declaration, let_declaration_frame. simpl.
    by rewrite (do_while_short body Hbody fuel (t :: rest) g [head] Hfuel).
Qed.

Lemma let_declaration_iteration_count_witness :
  no_terminator [Str "IDENT:x"; Str "="; Str "5"] /\ is_terminator (Str "EOF") = true
  /\ forall fuel,
       let_declaration fuel
         (State (Str "let" :: [Str "IDENT:x"; Str "="; Str "5"] ++ Str "EOF" :: []) ∅)
       = None
       <-> fuel <= length [Str "IDENT:x"; Str "="; Str "5"].
Proof.
  assert (Hbody : no_terminator [Str "IDENT:x"; Str "="; Str "5"])
    by (repeat constructor).
  assert (Ht : is_terminator (Str "EOF") = true) by reflexivity.
  split; [exact Hbody|]. split; [exact Ht|].
  exact (let_declaration_iteration_count
           (Str "let") [Str "IDENT:x"; Str "="; Str "5"] (Str "EOF") [] ∅ Hbody Ht).
Defined.

(** X4. The function writes the global [token] but never reads what it held
    before: the returned node and the tokens left on the stream are the same
    whatever the global object is at the call. *)
Theorem let_declaration_ignores_globals
    (fuel : nat) (l : list val) (g g' : gmap string val) :
  (fun r : node * state => (r.1, tokens r.2)) <$> let_declaration fuel (State l g)
  = (fun r : node * state => (r.1, tokens r.2)) <$> let_declaration fuel (State l g').
Proof.
  unfold let_declaration, let_declaration_frame. simpl.
  destruct (JsArray.shift l) as [head rem].
  pose proof (do_while_ignores_globals fuel rem g g' [head]) as Heq.
  destruct (do_while fuel rem g [head]) as [f|],
           (do_while fuel rem g' [head]) as [f'|]; simpl in *; try done.
  injection Heq as Htok _. by rewrite Htok.
Qed.

(** X5. The loop condition is false on the primitive strings ["EOF"] and
    ["\n"] and on nothing else.  So on a stream the engine can hold whose
    tokens after the head are no strings ([undefined], [null], booleans,
    numbers, objects such as token records), the call returns no node: the
    loop runs until [expression] is full and [push] throws [RangeError]. *)
Theorem let_declaration_only_string_terminators_end (max_length : N) :
  (forall t : val, is_terminator t = true <-> t = Str "EOF" \/ t = Str newline)
  /\ (forall (head : val) (rem : list val) (g : gmap string val),
        Forall (fun t => is_string t = false) rem ->
        (N.of_nat (length rem) < max_length)%N ->
        (forall fuel, fuel < N.to_nat max_length ->
           Engine.let_declaration max_length fuel (State (head :: rem) g) = None)
        /\ Engine.let_declaration max_length (N.to_nat max_length)
             (State (head :: rem) g)
           = Some (Engine.Throw Engine.RangeError,
                   State [] (<["token" := Undefined]> g))).
Proof.
  split; [apply is_terminator_spec|].
  intros head rem g Hrem Hfit.
  assert (Hno : no_terminator rem).
  { eapply Forall_impl; [exact Hrem|]. intros t. apply not_string_not_terminator. }
  destruct (engine_let_declaration_exhausted max_length head rem g Hno)
    as [Hrun Hthrow]; [lia|].
  rewrite drop_ge, lookup_ge_None_2 in Hthrow by lia.
  split.
  - intros fuel Hfuel. unfold Engine.let_declaration. by rewrite Hrun.
  - unfold Engine.let_declaration. by rewrite Hthrow.
Qed.

Lemma let_declaration_only_string_terminators_end_witness :
  Forall (fun t => is_string t = false) [Obj 1; Num 5; Obj 2]
  /\ (N.of_nat (length [Obj 1; Num 5; Obj 2]) < ecma_max_length)%N
  /\ (forall fuel, fuel < N.to_nat ecma_max_length ->
        Engine.let_declaration ecma_max_length fuel
          (State (Obj 0 :: [Obj 1; Num 5; Obj 2]) ∅) = None)
  /\ Engine.let_declaration ecma_max_length (N.to_nat ecma_max_length)
       (State (Obj 0 :: [Obj 1; Num 5; Obj 2]) ∅)
     = Some (Engine.Throw Engine.RangeError, State [] (<["token" := Undefined]> ∅)).
Proof.
  assert (Hrem : Forall (fun t => is_string t = false) [Obj 1; Num 5; Obj 2])
    by (repeat constructor).
  assert (Hfit : (N.of_nat (length [Obj 1; Num 5; Obj 2]) < ecma_max_length)%N)
    by (unfold ecma_max_length; simpl; lia).
  split; [exact Hrem|]. split; [exact Hfit|].
  exact (proj2 (let_declaration_only_string_terminators_end ecma_max_length)
           (Obj 0) [Obj 1; Num 5; Obj 2] ∅ Hrem Hfit).
Defined.

(** X6. On a stream of fewer than two tokens, the empty stream included,
    the call returns no node and does not fail at once either: [shift] on the
    empty array yields [undefined], the loop runs for as many iterations as
    an array holds elements, and the call ends by the [RangeError] of
    [push], the stream empty and [undefined] in the global [token]. *)
Theorem let_declaration_short_stream_range_error (max_length : N) (σ : state) :
  length (tokens σ) < 2 -> (1 <= max_length)%N ->
  (forall fuel, fuel < N.to_nat max_length ->
     Engine.let_declaration max_length fuel σ = None)
  /\ Engine.let_declaration max_length (N.to_nat max_length) σ
     = Some (Engine.Throw Engine.RangeError,
             State [] (<["token" := Undefined]> (globals σ))).
Proof.
  intros Hlen Hlim.
  assert (Hnil : no_terminator []) by constructor.
  assert (Hhead : exists head,
             forall fuel, Engine.let_declaration max_length fuel σ
                          = Engine.let_declaration max_length fuel
                              (State [head] (globals σ))).
  { destruct σ as [[|x [|y l]] g]; simpl in *; [by exists Undefined | by exists x | lia]. }
  destruct Hhead as [head Hhead].
  destruct (engine_let_declaration_exhausted max_length head [] (globals σ) Hnil)
    as [Hrun Hthrow]; [lia|].
  rewrite drop_nil, lookup_nil in Hthrow.
  split.
  - intros fuel Hfuel. rewrite Hhead. unfold Engine.let_declaration. by rewrite Hrun.
  - rewrite Hhead. unfold Engine.let_declaration. by rewrite Hthrow.
Qed.

Lemma let_declaration_short_stream_range_error_witness :
  length (tokens (State [] ∅)) < 2 /\ (1 <= ecma_max_length)%N
  /\ (forall fuel, fuel < N.to_nat ecma_max_length ->
        Engine.let_declaration ecma_max_length fuel (State [] ∅) = None)
  /\ Engine.let_declaration ecma_max_length (N.to_nat ecma_max_length) (State [] ∅)
     = Some (Engine.Throw Engine.RangeError,
             State [] (<["token" := Undefined]> (globals (State [] ∅)))).
Proof.
  assert (Hlen : length (tokens (State [] ∅)) < 2) by (simpl; lia).
  assert (Hlim : (1 <= ecma_max_length)%N) by (unfold ecma_max_length; lia).
  split; [exact Hlen|]. split; [exact Hlim|].
  exact (let_declaration_short_stream_range_error ecma_max_length (State [] ∅) Hlen Hlim).
Defined.

(** X7. Whatever the number of executions of the block, on any stream, a
    property of the global object other than [token] keeps the value it had,
    or stays absent. *)
Theorem loop_body_keeps_other_globals (k : nat) (f : frame) (key : string) :
  key <> "token" ->
  globals (frame_state (iterations k f)) !! key = globals (frame_state f) !! key.
Proof.
  intros Hkey. induction k as [|k IH]; [done|].
  unfold iterations in *. simpl. rewrite <- IH.
  unfold loop_body at 1.
  destruct (JsArray.shift (tokens (frame_state (Nat.iter k loop_body f)))) as [t l].
  simpl. by rewrite lookup_insert_ne.
Qed.

Lemma loop_body_keeps_other_globals_witness :
  "tokens" <> "token"
  /\ globals (frame_state
       (iterations 3 (Frame (State [Str "a"; Str "EOF"] (<["tokens" := Num 1]> ∅))
                            [Str "let"]))) !! "tokens"
     = globals (frame_state
         (Frame (State [Str "a"; Str "EOF"] (<["tokens" := Num 1]> ∅)) [Str "let"]))
       !! "tokens".
Proof.
  assert (Hkey : "tokens" <> "token") by discriminate.
  split; [exact Hkey|].
  exact (loop_body_keeps_other_globals 3 _ "tokens" Hkey).
Defined.

(** X8. When the loop ends, the local array [expression] holds exactly the
    tokens removed from the stream, in the order of the stream, its last
    element being the value of the global [token]; the function then drops
    it and returns the fixed node. *)
Theorem expression_holds_removed_tokens (fuel : nat) (σ : state) (f : frame) :
  let_declaration_frame fuel σ = Some f ->
  tokens σ = expression f ++ tokens (frame_state f)
  /\ last (expression f) = Some (read_token (globals (frame_state f)))
  /\ let_declaration fuel σ = Some (placeholder, frame_state f).
Proof.
  intros Hrun. split; [by apply (expression_is_consumed fuel)|].
  split; [|unfold let_declaration; by rewrite Hrun].
  unfold let_declaration_frame in Hrun.
  destruct (JsArray.shift (tokens σ)) as [head rem].
  apply do_while_inv in Hrun as (body & t & _ & _ & _ & -> & ->).
  by rewrite read_token_insert, app_assoc, last_snoc.
Qed.

Lemma expression_holds_removed_tokens_witness :
  let_declaration_frame 2 (State [Str "let"; Num 5; Str newline; Str "next1"] ∅)
  = Some (Frame (State [Str "next1"] (<["token" := Str newline]> ∅))
                [Str "let"; Num 5; Str newline])
  /\ [Str "let"; Num 5; Str newline; Str "next1"]
     = [Str "let"; Num 5; Str newline] ++ [Str "next1"]
  /\ last [Str "let"; Num 5; Str newline]
     = Some (read_token (<["token" := Str newline]> ∅))
  /\ let_declaration 2 (State [Str "let"; Num 5; Str newline; Str "next1"] ∅)
     = Some (placeholder, State [Str "next1"] (<["token" := Str newline]> ∅)).
Proof.
  assert (Hrun :
    let_declaration_frame 2 (State [Str "let"; Num 5; Str newline; Str "next1"] ∅)
    = Some (Frame (State [Str "next1"] (<["token" := Str newline]> ∅))
                  [Str "let"; Num 5; Str newline]))
    by (vm_compute; reflexivity).
  split; [exact Hrun|].
  exact (expression_holds_removed_tokens 2 _ _ Hrun).
Defined.

(** X9. On a stream without terminator after its head, the loop is still
    running after any number of iterations below the number of elements an
    array holds; the iteration that reaches this number throws [RangeError]
    from [push].  At that point [expression] is full: it holds the head, the
    tokens removed and one [undefined] for each iteration on the emptied
    stream; and when the stream was shorter than the limit it has been
    emptied and the global [token] holds [undefined]. *)
Theorem let_declaration_exhausted_stream_fills_expression
    (max_length : N) (head : val) (rem : list val) (g : gmap string val) :
  no_terminator rem -> (1 <= max_length)%N ->
  (forall fuel, fuel < N.to_nat max_length ->
     Engine.let_declaration_frame max_length fuel (State (head :: rem) g) = None)
  /\ exists f,
       Engine.let_declaration_frame max_length (N.to_nat max_length)
         (State (head :: rem) g)
       = Some (Engine.Throws Engine.RangeError f)
       /\ tokens (frame_state f) = drop (N.to_nat max_length) rem
       /\ expression f
          = head :: take (N.to_nat max_length - 1) rem
              ++ replicate (N.to_nat max_length - 1 - length rem) Undefined
       /\ length (expression f) = N.to_nat max_length
       /\ (length rem < N.to_nat max_length ->
           tokens (frame_state f) = []
           /\ globals (frame_state f) = <["token" := Undefined]> g).
Proof.
  intros Hrem Hlim.
  destruct (engine_let_declaration_exhausted max_length head rem g Hrem)
    as [Hrun Hthrow]; [lia|].
  split; [exact Hrun|].
  eexists. split; [exact Hthrow|]. cbn [frame_state tokens globals expression].
  repeat split.
  - cbn [length]. rewrite length_app, length_take, length_replicate. lia.
  - apply drop_ge. lia.
  - by rewrite lookup_ge_None_2 by lia.
Qed.

Lemma let_declaration_exhausted_stream_fills_expression_witness :
  no_terminator [Str "IDENT:x"] /\ (1 <= ecma_max_length)%N
  /\ (forall fuel, fuel < N.to_nat ecma_max_length ->
        Engine.let_declaration_frame ecma_max_length fuel
          (State (Str "let" :: [Str "IDENT:x"]) ∅) = None)
  /\ exists f,
       Engine.let_declaration_frame ecma_max_length (N.to_nat ecma_max_length)
         (State (Str "let" :: [Str "IDENT:x"]) ∅)
       = Some (Engine.Throws Engine.RangeError f)
       /\ tokens (frame_state f) = drop (N.to_nat ecma_max_length) [Str "IDENT:x"]
       /\ expression f
          = Str "let" :: take (N.to_nat ecma_max_length - 1) [Str "IDENT:x"]
              ++ replicate (N.to_nat ecma_max_length - 1 - length [Str "IDENT:x"])
                   Undefined
       /\ length (expression f) = N.to_nat ecma_max_length
       /\ (length [Str "IDENT:x"] < N.to_nat ecma_max_length ->
           tokens (frame_state f) = []
           /\ globals (frame_state f) = <["token" := Undefined]> ∅).
Proof.
  assert (Hrem : no_terminator [Str "IDENT:x"]) by (repeat constructor).
  assert (Hlim : (1 <= ecma_max_length)%N) by (unfold ecma_max_length; lia).
  split; [exact Hrem|]. split; [exact Hlim|].
  exact (let_declaration_exhausted_stream_fills_expression
           ecma_max_length (Str "let") [Str "IDENT:x"] ∅ Hrem Hlim).
Defined.
